(** * Herenboeren front end: the [hb-login] language toggle and the
      [hb-app] service-worker update handler.

    The repository holds three Stencil components ([hb-app], [hb-login],
    [hb-home]) and the i18next bootstrap.  Two methods carry behaviour:
    [AppHome.changeLang] (hb-login.tsx) and [HbApp.onSWUpdate] (hb-app.tsx).
    Both are embedded below; the libraries they call (i18next, the CSSOM,
    the Ionic toast controller, [window.location]) are external and appear
    as interfaces. *)

From stdpp Require Import base strings gmap.
From ITree Require Import ITree.

(** * External collaborators of [hb-login] *)

(** The i18next instance that Stencil injects through
    [@Prop({context: 'i18n'})].  The component only reads [language] and
    calls [changeLanguage]; the instance is typed [any], so [language] may
    be [undefined] ([None]) before the first language is resolved. *)
Class I18next (T : Type) : Type := {
  language : T -> option string;
  changeLanguage : string -> T -> T
}.

(** i18next assigns [this.language] inside [changeLanguage] before it
    starts loading the resources of the new language, so a read that
    follows the call already sees the requested language. *)
Class I18nextSync (T : Type) `{I18next T} : Prop :=
  language_changeLanguage :
    forall (lng : string) (i : T), language (changeLanguage lng i) = Some lng.

(** A minimal i18next instance: the current language and the options it
    was initialised with in global/translation.ts. *)
Record InitOptions : Type := {
  fallbackLng : string;
  ns : list string;
  defaultNS : string;
  loadPath : string;
  initImmediate : bool;
  debug : bool
}.

Definition translationOptions : InitOptions := {|
  fallbackLng := "en";
  ns := ["default"];
  defaultNS := "default";
  loadPath := "assets/locales/{{lng}}/{{ns}}.json";
  initImmediate := false;
  debug := true
|}.

Record I18nInstance : Type := {
  inst_options : InitOptions;
  inst_language : option string
}.

#[export] Instance I18nInstance_I18next : I18next I18nInstance := {|
  language := inst_language;
  changeLanguage := fun lng i =>
    {| inst_options := inst_options i; inst_language := Some lng |}
|}.

(** [CSSStyleDeclaration.setProperty(name, value)] on
    [document.documentElement.style]: an empty value removes the
    declaration, any other value of a custom property is stored. *)
Definition setProperty (name value : string) (style : gmap string string)
  : gmap string string :=
  if decide (value = "") then delete name style else <[name := value]> style.

(** * What [render()] returns *)

(** A JSX attribute: [name="text"], a bare [name] or [name={false}], and
    [name={() => ...}], a handler acting on the component's world [W]. *)
Inductive attr (W : Type) : Type :=
| AStr (s : string)
| ABool (b : bool)
| AOn (handler : W -> W).

Arguments AStr {W} s.
Arguments ABool {W} b.
Arguments AOn {W} handler.

(** A JSX element or a text child. *)
#[warnings="-register-all"]
Inductive vnode (W : Type) : Type :=
| VText (s : string)
| VElem (tag : string) (attrs : list (string * attr W))
    (children : list (vnode W)).

Arguments VText {W} s.
Arguments VElem {W} tag attrs children.

(** The handlers bound to [event] among the attributes of one element. *)
Definition attrHandlers {W : Type} (event : string)
  (attrs : list (string * attr W)) : list (W -> W) :=
  List.flat_map
    (fun a : string * attr W =>
       match snd a with
       | AOn h => if String.eqb (fst a) event then [h] else []
       | _ => []
       end) attrs.

(** All handlers bound to [event] in a tree, in document order. *)
Fixpoint handlers {W : Type} (event : string) (v : vnode W) : list (W -> W) :=
  match v with
  | VText _ => []
  | VElem _ attrs children =>
      attrHandlers event attrs ++ List.flat_map (handlers event) children
  end.

(** How a synchronous method ends: with a value, or by throwing. *)
Inductive JsError : Type :=
| TypeError.

Inductive completion (A : Type) : Type :=
| Normal (value : A)
| Throw (error : JsError).

Arguments Normal {A} value.
Arguments Throw {A} error.

(** [String.prototype.toUpperCase], as far as the component relies on
    it: some function from strings to strings. *)
Class StringPrototype : Type := {
  toUpperCase : string -> string
}.

(** [i18n.t(key)]: the text of [key] in the current language. *)
Class I18nextT (T : Type) : Type := {
  t : T -> string -> string
}.

(** Upper-casing of the letters a to z, every other character kept; on
    strings of ASCII characters this is what [toUpperCase] does. *)
Definition asciiUpper (c : Ascii.ascii) : Ascii.ascii :=
  let n := Ascii.nat_of_ascii c in
  if (97 <=? n)%nat && (n <=? 122)%nat
  then Ascii.ascii_of_nat (n - 32) else c.

Fixpoint asciiToUpperCase (s : string) : string :=
  match s with
  | EmptyString => EmptyString
  | String c rest => String (asciiUpper c) (asciiToUpperCase rest)
  end.

Definition AsciiStringPrototype : StringPrototype := {|
  toUpperCase := asciiToUpperCase
|}.

(** With no resource bundle loaded, [t] hands back the key. *)
#[export] Instance I18nInstance_I18nextT : I18nextT I18nInstance := {|
  t := fun _ key => key
|}.

(** * The [hb-login] component ([class AppHome]) *)

Module AppHome.

Section Component.
Context {T : Type} `{I18next T}.

(** What [changeLang] and [componentWillLoad] read and write: the shared
    i18next object behind [this.i18n], the [@State() lang] field
    ([None] while it is still [undefined]) and the inline style of the
    document element. *)
Record World : Type := {
  i18n : T;
  lang : option string;
  rootStyle : gmap string string
}.

Definition i18n_changeLanguage (lng : string) (w : World) : World :=
  {| i18n := changeLanguage lng (i18n w);
     lang := lang w;
     rootStyle := rootStyle w |}.

Definition style_setProperty (name value : string) (w : World) : World :=
  {| i18n := i18n w;
     lang := lang w;
     rootStyle := setProperty name value (rootStyle w) |}.

Definition set_lang (v : option string) (w : World) : World :=
  {| i18n := i18n w; lang := v; rootStyle := rootStyle w |}.

(** [changeLang()], statement by statement. *)
Definition changeLang (w : World) : World :=
  let w1 :=
    if decide (language (i18n w) = Some "nl") then
      style_setProperty "--ion-color-primary" "red"
        (i18n_changeLanguage "en" w)
    else
      style_setProperty "--ion-color-primary" "green"
        (i18n_changeLanguage "nl" w) in
  set_lang (language (i18n w1)) w1.

(** [componentWillLoad()]. *)
Definition componentWillLoad (w : World) : World :=
  set_lang (language (i18n w)) w.

End Component.

Arguments World T : clear implicits.

(** A freshly loaded login page whose i18next instance has resolved
    language [l]: [componentWillLoad] has copied it, no inline style yet. *)
Definition loaded (l : option string) : World I18nInstance :=
  componentWillLoad
    {| i18n := {| inst_options := translationOptions; inst_language := l |};
       lang := None;
       rootStyle := ∅ |}.

Section View.
Context {T : Type} `{I18next T} `{I18nextT T} `{StringPrototype}.

(** The array [render()] returns, given the i18next object and the text
    of the language link. *)
Definition view (i : T) (label : string) : list (vnode (World T)) :=
  [ VElem "ion-card" [] [
      VElem "ion-card-content" [] [
        VElem "ion-card-title" [] [ VText (t i "auth.login") ];
        VElem "form" [] [
          VElem "ion-row" [] [
            VElem "ion-col" [] [
              VElem "ion-list" [] [
                VElem "ion-item" [] [
                  VElem "ion-label" [] [ VText (t i "auth.email") ];
                  VElem "ion-input"
                    [ ("type", AStr "email"); ("name", AStr "email");
                      ("required", ABool true) ] [] ];
                VElem "ion-item" [] [
                  VElem "ion-label" [] [ VText (t i "auth.password") ];
                  VElem "ion-input"
                    [ ("type", AStr "password"); ("name", AStr "password");
                      ("required", ABool true) ] [] ] ] ] ];
          VElem "div" [ ("id", AStr "spacer") ] [];
          VElem "ion-row" [] [
            VElem "ion-col" [] [
              VElem "ion-button" [ ("type", AStr "submit") ]
                [ VText (t i "auth.login") ];
              VElem "ion-button" [] [ VText (t i "auth.registration") ] ] ] ];
        VElem "a" [ ("onClick", AOn changeLang) ] [ VText label ] ] ] ].

(** [render()]: [this.lang.toUpperCase()] throws a TypeError while
    [lang] is [undefined]. *)
Definition render (w : World T) : completion (list (vnode (World T))) :=
  match lang w with
  | None => Throw TypeError
  | Some l => Normal (view (i18n w) (toUpperCase l))
  end.

(** [n] calls of [changeLang()] in a row. *)
Definition clicks (n : nat) (w : World T) : World T :=
  Nat.iter n changeLang w.

End View.

End AppHome.

(** * The root component [hb-app] ([class HbApp]) *)

Module HbApp.

(** ** The browser API that [onSWUpdate] talks to *)

(** The object literal passed to [toastCtrl.create]. *)
Record ToastOptions : Type := {
  message : string;
  showCloseButton : bool;
  closeButtonText : string
}.

(** An [HTMLIonToastElement] is known by its identity only. *)
Definition HTMLIonToastElement : Type := nat.

(** What [onWillDismiss] resolves with. *)
Record OverlayEventDetail : Type := {
  role : option string
}.

(** How a promise settles.  A promise that stays pending has no outcome:
    the call that awaits it never returns. *)
Inductive Settled (X : Type) : Type :=
| Fulfilled (value : X)
| Rejected (reason : string).

Arguments Fulfilled {X} value.
Arguments Rejected {X} reason.

(** The four calls of [onSWUpdate], indexed by what they hand back:
    [this.toastCtrl.create(opts)], [toast.present()],
    [toast.onWillDismiss()] and [window.location.reload()]. *)
Variant browserE : Type -> Type :=
| ToastCreate (opts : ToastOptions) : browserE (Settled HTMLIonToastElement)
| ToastPresent (toast : HTMLIonToastElement) : browserE (Settled unit)
| ToastOnWillDismiss (toast : HTMLIonToastElement)
    : browserE (Settled OverlayEventDetail)
| LocationReload : browserE unit.

(** [await p; k]: the continuation runs with the value once [p] is
    fulfilled; a rejection is thrown, and with no [try] around it the
    async method ends there with a rejected promise. *)
Definition await {X R : Type} (p : browserE (Settled X))
  (k : X -> itree browserE (Settled R)) : itree browserE (Settled R) :=
  ITree.bind (ITree.trigger p) (fun r =>
    match r with
    | Fulfilled x => k x
    | Rejected reason => Ret (Rejected reason)
    end).

Definition swUpdateToast : ToastOptions := {|
  message := "New version available";
  showCloseButton := true;
  closeButtonText := "Reload"
|}.

(** [async onSWUpdate()]. *)
Definition onSWUpdate : itree browserE (Settled unit) :=
  await (ToastCreate swUpdateToast) (fun toast =>
  await (ToastPresent toast) (fun _ =>
  await (ToastOnWillDismiss toast) (fun _ =>
  ITree.bind (ITree.trigger LocationReload) (fun _ =>
  Ret (Fulfilled tt))))).

(** The [@Listen] declarations of the component. *)
Definition listeners : list (string * itree browserE (Settled unit)) :=
  [("window:swUpdate", onSWUpdate)].

(** The handlers that run when event [ev] is delivered to the component. *)
Definition dispatch (ev : string) : list (itree browserE (Settled unit)) :=
  List.map snd (List.filter (fun l => String.eqb (fst l) ev) listeners).

(** ** Observable behaviour *)

(** One entry per call issued and per call returned. *)
Inductive item : Type :=
| call_create (opts : ToastOptions)
| ret_create (opts : ToastOptions) (r : Settled HTMLIonToastElement)
| call_present (toast : HTMLIonToastElement)
| ret_present (toast : HTMLIonToastElement) (r : Settled unit)
| call_onWillDismiss (toast : HTMLIonToastElement)
| ret_onWillDismiss (toast : HTMLIonToastElement)
    (r : Settled OverlayEventDetail)
| call_reload
| ret_reload.

Definition called {X : Type} (e : browserE X) : item :=
  match e with
  | ToastCreate opts => call_create opts
  | ToastPresent toast => call_present toast
  | ToastOnWillDismiss toast => call_onWillDismiss toast
  | LocationReload => call_reload
  end.

Definition returned {X : Type} (e : browserE X) : X -> item :=
  match e in browserE X return X -> item with
  | ToastCreate opts => ret_create opts
  | ToastPresent toast => ret_present toast
  | ToastOnWillDismiss toast => ret_onWillDismiss toast
  | LocationReload => fun _ => ret_reload
  end.

(** The finite histories a handler can have produced at some moment: it
    may not have started, it may be waiting for the call it issued last,
    and every answer of the environment is possible. *)
Inductive historyF {R : Type} : itree' browserE R -> list item -> Prop :=
| history_nil (ot : itree' browserE R) : historyF ot []
| history_tau (t : itree browserE R) (h : list item) :
    historyF (observe t) h -> historyF (TauF t) h
| history_call {X : Type} (e : browserE X) (k : X -> itree browserE R) :
    historyF (VisF e k) [called e]
| history_ret {X : Type} (e : browserE X) (k : X -> itree browserE R)
    (x : X) (h : list item) :
    historyF (observe (k x)) h ->
    historyF (VisF e k) (called e :: returned e x :: h).

Definition history {R : Type} (t : itree browserE R) (h : list item) : Prop :=
  historyF (observe t) h.

(** Replaying a handler against an environment: [answer] settles a call
    or leaves it pending ([None]); [fuel] bounds the number of steps
    looked at. *)
Fixpoint play {R : Type} (fuel : nat)
  (answer : forall X : Type, browserE X -> option X)
  (t : itree browserE R) : list item :=
  match fuel with
  | O => []
  | S fuel' =>
      match observe t with
      | RetF _ => []
      | TauF t' => play fuel' answer t'
      | VisF e k =>
          called e ::
          match answer _ e with
          | None => []
          | Some x => returned e x :: play fuel' answer (k x)
          end
      end
  end.

(** What the promise returned by an async handler settles with, if the
    handler comes to its end within [fuel] steps against [answer]. *)
Fixpoint finish {R : Type} (fuel : nat)
  (answer : forall X : Type, browserE X -> option X)
  (t : itree browserE R) : option R :=
  match fuel with
  | O => None
  | S fuel' =>
      match observe t with
      | RetF r => Some r
      | TauF t' => finish fuel' answer t'
      | VisF e k =>
          match answer _ e with
          | None => None
          | Some x => finish fuel' answer (k x)
          end
      end
  end.

(** A browser in which the controller hands out element [toast], the
    toast shows, and the user closes it with [detail]. *)
Definition cooperative (toast : HTMLIonToastElement)
  (detail : OverlayEventDetail) (X : Type) (e : browserE X) : option X :=
  match e in browserE X return option X with
  | ToastCreate _ => Some (Fulfilled toast)
  | ToastPresent _ => Some (Fulfilled tt)
  | ToastOnWillDismiss _ => Some (Fulfilled detail)
  | LocationReload => Some tt
  end.

(** A browser in which the toast shows and the user never closes it. *)
Definition neverDismissed (toast : HTMLIonToastElement)
  (X : Type) (e : browserE X) : option X :=
  match e in browserE X return option X with
  | ToastCreate _ => Some (Fulfilled toast)
  | ToastPresent _ => Some (Fulfilled tt)
  | ToastOnWillDismiss _ => None
  | LocationReload => Some tt
  end.

(** A browser in which the toast is created and [present()] is rejected
    with [reason]. *)
Definition presentRejected (toast : HTMLIonToastElement) (reason : string)
  (X : Type) (e : browserE X) : option X :=
  match e in browserE X return option X with
  | ToastCreate _ => Some (Fulfilled toast)
  | ToastPresent _ => Some (Rejected reason)
  | ToastOnWillDismiss _ => None
  | LocationReload => Some tt
  end.

(** The longest history of [onSWUpdate] under given answers to
    [create], [present] and [onWillDismiss]; an answer is not looked at
    when an earlier one is a rejection. *)
Definition run (rc : Settled HTMLIonToastElement) (rp : Settled unit)
  (rd : Settled OverlayEventDetail) : list item :=
  call_create swUpdateToast :: ret_create swUpdateToast rc ::
  match rc with
  | Rejected _ => []
  | Fulfilled toast =>
      call_present toast :: ret_present toast rp ::
      match rp with
      | Rejected _ => []
      | Fulfilled _ =>
          call_onWillDismiss toast :: ret_onWillDismiss toast rd ::
          match rd with
          | Rejected _ => []
          | Fulfilled _ => [call_reload; ret_reload]
          end
      end
  end.

(** The run in which every promise is fulfilled. *)
Definition fullRun (toast : HTMLIonToastElement) (detail : OverlayEventDetail)
  : list item :=
  [ call_create swUpdateToast;
    ret_create swUpdateToast (Fulfilled toast);
    call_present toast;
    ret_present toast (Fulfilled tt);
    call_onWillDismiss toast;
    ret_onWillDismiss toast (Fulfilled detail);
    call_reload;
    ret_reload ].

End HbApp.

(** * Facts about the minimal i18next instance *)

#[export] Instance I18nInstance_sync : I18nextSync I18nInstance.
Proof. intros lng i. reflexivity. Qed.

(** * Facts about [setProperty] *)

Lemma lookup_setProperty_eq (name value : string) (style : gmap string string) :
  value <> "" -> setProperty name value style !! name = Some value.
Proof.
  intros Hne. unfold setProperty.
  destruct (decide (value = "")) as [Heq | _]; [contradiction |].
  apply lookup_insert_eq.
Qed.

Lemma lookup_setProperty_ne (name name' value : string)
  (style : gmap string string) :
  name <> name' -> setProperty name value style !! name' = style !! name'.
Proof.
  intros Hne. unfold setProperty. destruct (decide (value = "")).
  - apply lookup_delete_ne; assumption.
  - apply lookup_insert_ne; assumption.
Qed.

(** * Facts about [AppHome.changeLang] *)

Section ChangeLang.
Context {T : Type} `{I18next T}.

Import AppHome.

(** The two branches, without any assumption on the i18next instance:
    which [changeLanguage] call is made and which colour is written. *)
Lemma changeLang_nl (w : World T) :
  language (i18n w) = Some "nl" ->
  i18n (changeLang w) = changeLanguage "en" (i18n w) /\
  rootStyle (changeLang w) = <["--ion-color-primary" := "red"]> (rootStyle w).
Proof.
  intros Hnl. unfold changeLang.
  destruct (decide (language (i18n w) = Some "nl")) as [_ | Hne];
    [| contradiction].
  split; reflexivity.
Qed.

Lemma changeLang_other (w : World T) :
  language (i18n w) <> Some "nl" ->
  i18n (changeLang w) = changeLanguage "nl" (i18n w) /\
  rootStyle (changeLang w) = <["--ion-color-primary" := "green"]> (rootStyle w).
Proof.
  intros Hnl. unfold changeLang.
  destruct (decide (language (i18n w) = Some "nl")) as [Heq | _];
    [contradiction |].
  split; reflexivity.
Qed.

(** [lang] is assigned last, from the i18next object as it then is. *)
Lemma changeLang_lang (w : World T) :
  lang (changeLang w) = language (i18n (changeLang w)).
Proof.
  unfold changeLang.
  destruct (decide (language (i18n w) = Some "nl")); reflexivity.
Qed.

Lemma componentWillLoad_lang (w : World T) :
  lang (componentWillLoad w) = language (i18n (componentWillLoad w)) /\
  i18n (componentWillLoad w) = i18n w /\
  rootStyle (componentWillLoad w) = rootStyle w.
Proof. repeat split. Qed.

Context `{!I18nextSync T}.

Lemma changeLang_language_cases (w : World T) :
  language (i18n (changeLang w)) =
    Some (if decide (language (i18n w) = Some "nl") then "en" else "nl").
Proof.
  destruct (decide (language (i18n w) = Some "nl")) as [Hnl | Hnl].
  - destruct (changeLang_nl w Hnl) as [-> _]. apply language_changeLanguage.
  - destruct (changeLang_other w Hnl) as [-> _]. apply language_changeLanguage.
Qed.

Lemma changeLang_colour_cases (w : World T) :
  rootStyle (changeLang w) !! "--ion-color-primary" =
    Some (if decide (language (i18n w) = Some "nl") then "red" else "green").
Proof.
  destruct (decide (language (i18n w) = Some "nl")) as [Hnl | Hnl].
  - destruct (changeLang_nl w Hnl) as [_ ->]. apply lookup_insert_eq.
  - destruct (changeLang_other w Hnl) as [_ ->]. apply lookup_insert_eq.
Qed.

(** C2. Whatever the state of the component, [changeLang()] leaves the
    i18next language at 'en' when it was 'nl' and at 'nl' when it was
    anything else ('en', a third language, or not set yet), and the [lang]
    state then equals the language of the i18next object. *)
Theorem changeLang_sets_language (w : World T) :
  (language (i18n w) = Some "nl" ->
     language (i18n (changeLang w)) = Some "en") /\
  (language (i18n w) <> Some "nl" ->
     language (i18n (changeLang w)) = Some "nl") /\
  lang (changeLang w) = language (i18n (changeLang w)).
Proof.
  pose proof (changeLang_language_cases w) as Hcases.
  split; [| split].
  - intros Hnl. rewrite Hcases.
    destruct (decide (language (i18n w) = Some "nl")); [reflexivity | contradiction].
  - intros Hnl. rewrite Hcases.
    destruct (decide (language (i18n w) = Some "nl")); [contradiction | reflexivity].
  - apply changeLang_lang.
Qed.

(** C9. After [changeLang()] the custom property '--ion-color-primary' is
    'red' exactly when the new language is 'en' and 'green' exactly when
    the new language is 'nl'; and from 'nl' or 'en' two calls bring the
    language back to where it started. *)
Theorem changeLang_colour_and_involution (w : World T) :
  (rootStyle (changeLang w) !! "--ion-color-primary" = Some "red" <->
     language (i18n (changeLang w)) = Some "en") /\
  (rootStyle (changeLang w) !! "--ion-color-primary" = Some "green" <->
     language (i18n (changeLang w)) = Some "nl") /\
  (language (i18n w) = Some "nl" \/ language (i18n w) = Some "en" ->
     language (i18n (changeLang (changeLang w))) = language (i18n w)).
Proof.
  pose proof (changeLang_language_cases w) as Hl.
  pose proof (changeLang_colour_cases w) as Hc.
  split; [| split].
  - rewrite Hl, Hc.
    destruct (decide (language (i18n w) = Some "nl")); split;
      intros Heq; (reflexivity || discriminate Heq).
  - rewrite Hl, Hc.
    destruct (decide (language (i18n w) = Some "nl")); split;
      intros Heq; (reflexivity || discriminate Heq).
  - intros Hstart.
    rewrite (changeLang_language_cases (changeLang w)), Hl.
    destruct Hstart as [Hnl | Hen]; rewrite ?Hnl, ?Hen.
    + destruct (decide (language (i18n w) = Some "nl")) as [_ | Hne];
        [| contradiction].
      reflexivity.
    + destruct (decide (language (i18n w) = Some "nl")) as [Heq | _].
      * rewrite Hen in Heq. discriminate Heq.
      * reflexivity.
Qed.

(** Outside 'nl' and 'en' the toggle does not come back: any other
    language is taken to 'nl' and from there to 'en'. *)
Lemma changeLang_twice_other (w : World T) :
  language (i18n w) <> Some "nl" ->
  language (i18n (changeLang (changeLang w))) = Some "en".
Proof.
  intros Hne.
  rewrite (changeLang_language_cases (changeLang w)).
  rewrite (changeLang_language_cases w).
  destruct (decide (language (i18n w) = Some "nl")); [contradiction |].
  reflexivity.
Qed.

End ChangeLang.

Lemma changeLang_sets_language_witness :
  I18nextSync I18nInstance /\
  language (AppHome.i18n (AppHome.loaded (Some "nl"))) = Some "nl" /\
  language (AppHome.i18n (AppHome.changeLang (AppHome.loaded (Some "nl"))))
    = Some "en" /\
  language (AppHome.i18n (AppHome.loaded (Some "de"))) <> Some "nl" /\
  language (AppHome.i18n (AppHome.changeLang (AppHome.loaded (Some "de"))))
    = Some "nl" /\
  AppHome.lang (AppHome.changeLang (AppHome.loaded (Some "de"))) = Some "nl".
Proof.
  assert (Hnl : language (AppHome.i18n (AppHome.loaded (Some "nl"))) = Some "nl")
    by reflexivity.
  assert (Hde : language (AppHome.i18n (AppHome.loaded (Some "de"))) <> Some "nl")
    by discriminate.
  destruct (changeLang_sets_language (I18nextSync0 := I18nInstance_sync)
              (AppHome.loaded (Some "nl"))) as (Hen & _ & _).
  destruct (changeLang_sets_language (I18nextSync0 := I18nInstance_sync)
              (AppHome.loaded (Some "de"))) as (_ & Hother & Hlang).
  split; [exact I18nInstance_sync |].
  split; [exact Hnl |]. split; [exact (Hen Hnl) |].
  split; [exact Hde |]. split; [exact (Hother Hde) |].
  rewrite Hlang. exact (Hother Hde).
Defined.

Lemma changeLang_colour_and_involution_witness :
  I18nextSync I18nInstance /\
  language (AppHome.i18n (AppHome.loaded (Some "en"))) = Some "en" /\
  language (AppHome.i18n
              (AppHome.changeLang (AppHome.changeLang (AppHome.loaded (Some "en")))))
    = Some "en" /\
  (AppHome.rootStyle (AppHome.changeLang (AppHome.loaded (Some "en")))
     !! "--ion-color-primary" = Some "green" <->
   language (AppHome.i18n (AppHome.changeLang (AppHome.loaded (Some "en"))))
     = Some "nl").
Proof.
  assert (Hen : language (AppHome.i18n (AppHome.loaded (Some "en"))) = Some "en")
    by reflexivity.
  destruct (changeLang_colour_and_involution (I18nextSync0 := I18nInstance_sync)
              (AppHome.loaded (Some "en"))) as (_ & Hgreen & Htwice).
  split; [exact I18nInstance_sync |].
  split; [exact Hen |].
  split; [rewrite (Htwice (or_intror Hen)); exact Hen |].
  exact Hgreen.
Defined.

(** * Facts about [HbApp.onSWUpdate] *)

Section OnSWUpdate.

Import HbApp.

(** Inversion of a history on the head of the tree it belongs to. *)
Lemma historyF_inv {R : Type} (ot : itree' browserE R) (h : list item) :
  historyF ot h ->
  match ot with
  | RetF _ => h = []
  | TauF t => h = [] \/ historyF (observe t) h
  | VisF e k =>
      h = [] \/ h = [called e] \/
      exists x h', h = called e :: returned e x :: h' /\
                   historyF (observe (k x)) h'
  end.
Proof.
  intros H. destruct H as [ot | t h H | X e k | X e k x h H].
  - destruct ot; auto.
  - right. exact H.
  - right. left. reflexivity.
  - right. right. exists x, h. split; [reflexivity | exact H].
Qed.

(** Histories are closed under prefixes: an observer may have looked
    earlier. *)
Lemma historyF_prefix {R : Type} (ot : itree' browserE R) (h h' : list item) :
  historyF ot h -> h' `prefix_of` h -> historyF ot h'.
Proof.
  intros H. revert h'.
  induction H as [ot | t h H IH | X e k | X e k x h H IH]; intros h' Hpre.
  - apply prefix_nil_inv in Hpre. subst h'. constructor.
  - constructor. apply IH. exact Hpre.
  - destruct h' as [| a h']; [constructor |].
    apply prefix_cons_inv_1 in Hpre as Ha.
    apply prefix_cons_inv_2, prefix_nil_inv in Hpre. subst. constructor.
  - destruct h' as [| a [| b h']]; [constructor | |].
    + apply prefix_cons_inv_1 in Hpre. subst a. constructor.
    + apply prefix_cons_inv_1 in Hpre as Ha.
      apply prefix_cons_inv_2 in Hpre.
      apply prefix_cons_inv_1 in Hpre as Hb.
      apply prefix_cons_inv_2 in Hpre. subst a b.
      constructor. apply IH. exact Hpre.
Qed.

(** Whatever the environment and however long one looks, a replay is a
    history. *)
Lemma play_history {R : Type} (fuel : nat)
  (answer : forall X : Type, browserE X -> option X) (t : itree browserE R) :
  history t (play fuel answer t).
Proof.
  revert t. induction fuel as [| fuel IH]; intros t; unfold history.
  - constructor.
  - simpl. destruct (observe t) as [r | t' | X e k].
    + constructor.
    + constructor. apply IH.
    + destruct (answer X e) as [x |].
      * constructor. apply IH.
      * constructor.
Qed.

Example play_cooperative :
  play 4 (cooperative 7 {| role := Some "cancel" |}) onSWUpdate
  = fullRun 7 {| role := Some "cancel" |}.
Proof. reflexivity. Qed.

Example play_neverDismissed (fuel : nat) :
  play (3 + fuel) (neverDismissed 7) onSWUpdate
  = [ call_create swUpdateToast;
      ret_create swUpdateToast (Fulfilled 7);
      call_present 7;
      ret_present 7 (Fulfilled tt);
      call_onWillDismiss 7 ].
Proof. reflexivity. Qed.

(** Only 'window:swUpdate' has a listener. *)
Lemma dispatch_other (ev : string) :
  ev <> "window:swUpdate" -> dispatch ev = [].
Proof.
  intros Hne. unfold dispatch, listeners.
  change (List.filter _ [?a]) with
    (if String.eqb (fst a) ev then [a] else []).
  unfold fst.
  destruct (String.eqb_spec "window:swUpdate" ev) as [Heq | _].
  - symmetry in Heq. contradiction.
  - reflexivity.
Qed.

(** One [await]: nothing yet, the call pending, the call rejected (the
    method ends), or the call fulfilled and the continuation running. *)
Lemma history_await {X R : Type} (p : browserE (Settled X))
  (k : X -> itree browserE (Settled R)) (h : list item) :
  history (await p k) h ->
  h = [] \/ h = [called p] \/
  (exists reason, h = [called p; returned p (Rejected reason)]) \/
  (exists x h', h = called p :: returned p (Fulfilled x) :: h' /\
                history (k x) h').
Proof.
  unfold history, await. cbn. intros H.
  apply historyF_inv in H.
  destruct H as [-> | [-> | (r & h' & -> & H)]]; [auto | auto |].
  destruct r as [x | reason]; cbn in H.
  - right. right. right. exists x, h'. split; [reflexivity | exact H].
  - apply historyF_inv in H. subst h'. right. right. left.
    exists reason. reflexivity.
Qed.

Lemma history_await_fulfilled {X R : Type} (p : browserE (Settled X))
  (k : X -> itree browserE (Settled R)) (x : X) (h : list item) :
  history (k x) h ->
  history (await p k) (called p :: returned p (Fulfilled x) :: h).
Proof.
  unfold history, await. cbn. intros H.
  apply (history_ret p _ (Fulfilled x)). cbn. exact H.
Qed.

Lemma history_await_rejected {X R : Type} (p : browserE (Settled X))
  (k : X -> itree browserE (Settled R)) (reason : string) :
  history (await p k) [called p; returned p (Rejected reason)].
Proof.
  unfold history, await. cbn.
  apply (history_ret p _ (Rejected reason)). cbn. constructor.
Qed.

(** The last statement, [window.location.reload()]. *)
Lemma history_reload (h : list item) :
  history (ITree.bind (ITree.trigger LocationReload)
             (fun _ => Ret (Fulfilled tt) : itree browserE (Settled unit))) h ->
  h = [] \/ h = [call_reload] \/ h = [call_reload; ret_reload].
Proof.
  unfold history. cbn. intros H.
  apply historyF_inv in H.
  destruct H as [-> | [-> | (r & h' & -> & H)]]; [auto | auto |].
  cbn in H. apply historyF_inv in H. subst h'. auto.
Qed.

(** Every history of [onSWUpdate] is an initial part of a [run], and every
    initial part of a [run] is a history. *)
Lemma onSWUpdate_history_run (h : list item) :
  history onSWUpdate h ->
  exists rc rp rd, h `prefix_of` run rc rp rd.
Proof.
  intros H. unfold onSWUpdate in H.
  pose (d := {| role := None |}).
  apply history_await in H.
  destruct H as [-> | [-> | [(reason & ->) | (toast & h1 & -> & H)]]].
  - exists (Rejected ""), (Rejected ""), (Rejected ""). apply prefix_nil.
  - exists (Rejected ""), (Rejected ""), (Rejected "").
    eexists. reflexivity.
  - exists (Rejected reason), (Rejected ""), (Rejected "").
    eexists. reflexivity.
  - apply history_await in H.
    destruct H as [-> | [-> | [(reason & ->) | ([] & h2 & -> & H)]]].
    + exists (Fulfilled toast), (Rejected ""), (Rejected "").
      eexists. reflexivity.
    + exists (Fulfilled toast), (Rejected ""), (Rejected "").
      eexists. reflexivity.
    + exists (Fulfilled toast), (Rejected reason), (Rejected "").
      eexists. reflexivity.
    + apply history_await in H.
      destruct H as [-> | [-> | [(reason & ->) | (detail & h3 & -> & H)]]].
      * exists (Fulfilled toast), (Fulfilled tt), (Rejected "").
        eexists. reflexivity.
      * exists (Fulfilled toast), (Fulfilled tt), (Rejected "").
        eexists. reflexivity.
      * exists (Fulfilled toast), (Fulfilled tt), (Rejected reason).
        eexists. reflexivity.
      * exists (Fulfilled toast), (Fulfilled tt), (Fulfilled detail).
        apply history_reload in H.
        destruct H as [-> | [-> | ->]]; eexists; cbn; reflexivity.
Qed.

Lemma run_history (rc : Settled HTMLIonToastElement) (rp : Settled unit)
  (rd : Settled OverlayEventDetail) :
  history onSWUpdate (run rc rp rd).
Proof.
  unfold onSWUpdate, run.
  destruct rc as [toast | reason]; [| apply history_await_rejected].
  apply (history_await_fulfilled (ToastCreate swUpdateToast)).
  destruct rp as [[] | reason]; [| apply history_await_rejected].
  apply (history_await_fulfilled (ToastPresent toast)).
  destruct rd as [detail | reason]; [| apply history_await_rejected].
  apply (history_await_fulfilled (ToastOnWillDismiss toast)).
  unfold history. cbn.
  apply (history_ret LocationReload _ tt). cbn. constructor.
Qed.

Lemma onSWUpdate_history_iff (h : list item) :
  history onSWUpdate h <-> exists rc rp rd, h `prefix_of` run rc rp rd.
Proof.
  split.
  - apply onSWUpdate_history_run.
  - intros (rc & rp & rd & Hpre).
    exact (historyF_prefix _ _ _ (run_history rc rp rd) Hpre).
Qed.

(** Where in a history a given call can stand: peel the history from the
    front until the call is met. *)
Ltac locate pre Heq :=
  destruct pre as [| ? pre]; simpl in Heq;
  [ first [ discriminate Heq | injection Heq; intros; subst; reflexivity ]
  | first [ discriminate Heq | injection Heq as -> Heq; locate pre Heq ] ].

Lemma run_first (rc : Settled HTMLIonToastElement) (rp : Settled unit)
  (rd : Settled OverlayEventDetail) (h : list item) (a : item)
  (rest : list item) :
  h `prefix_of` run rc rp rd -> h = a :: rest -> a = call_create swUpdateToast.
Proof.
  intros [k Hk] ->. unfold run in Hk. simpl in Hk.
  injection Hk as <- _. reflexivity.
Qed.

Lemma run_present (rc : Settled HTMLIonToastElement) (rp : Settled unit)
  (rd : Settled OverlayEventDetail) (pre post : list item)
  (toast : HTMLIonToastElement) :
  (pre ++ call_present toast :: post) `prefix_of` run rc rp rd ->
  pre = [call_create swUpdateToast; ret_create swUpdateToast (Fulfilled toast)].
Proof.
  intros [k Hk]. symmetry in Hk. rewrite <- app_assoc in Hk.
  destruct rc as [toast' | ?], rp as [[] | ?], rd as [detail | ?];
    unfold run in Hk; locate pre Hk.
Qed.

Lemma run_reload (rc : Settled HTMLIonToastElement) (rp : Settled unit)
  (rd : Settled OverlayEventDetail) (pre post : list item) :
  (pre ++ call_reload :: post) `prefix_of` run rc rp rd ->
  exists toast detail,
    pre = [ call_create swUpdateToast;
            ret_create swUpdateToast (Fulfilled toast);
            call_present toast;
            ret_present toast (Fulfilled tt);
            call_onWillDismiss toast;
            ret_onWillDismiss toast (Fulfilled detail) ].
Proof.
  intros [k Hk]. symmetry in Hk. rewrite <- app_assoc in Hk.
  destruct rc as [toast | ?], rp as [[] | ?], rd as [detail | ?];
    unfold run in Hk;
    try (exfalso; locate pre Hk).
  exists toast, detail. locate pre Hk.
Qed.

(** C10. The component listens to 'window:swUpdate' with [onSWUpdate].
    The handler begins by creating a toast with message 'New version
    available' and a close button labelled 'Reload'; the toast it presents
    is that one; [window.location.reload()] is called only after the toast
    has been created, [present()] has been fulfilled and the promise of
    [onWillDismiss()] has been fulfilled, in this order; and when all three
    promises are fulfilled the handler does go through all of it. *)
Theorem swUpdate_toast_then_reload :
  dispatch "window:swUpdate" = [onSWUpdate] /\
  swUpdateToast = {| message := "New version available";
                     showCloseButton := true;
                     closeButtonText := "Reload" |} /\
  (forall toast detail, history onSWUpdate (fullRun toast detail)) /\
  (forall h : list item, history onSWUpdate h ->
     (forall a rest, h = a :: rest -> a = call_create swUpdateToast) /\
     (forall pre toast post, h = pre ++ call_present toast :: post ->
        pre = [ call_create swUpdateToast;
                ret_create swUpdateToast (Fulfilled toast) ]) /\
     (forall pre post, h = pre ++ call_reload :: post ->
        exists toast detail,
          pre = [ call_create swUpdateToast;
                  ret_create swUpdateToast (Fulfilled toast);
                  call_present toast;
                  ret_present toast (Fulfilled tt);
                  call_onWillDismiss toast;
                  ret_onWillDismiss toast (Fulfilled detail) ])).
Proof.
  split; [reflexivity |]. split; [reflexivity |]. split.
  - intros toast detail.
    exact (run_history (Fulfilled toast) (Fulfilled tt) (Fulfilled detail)).
  - intros h H. apply onSWUpdate_history_run in H.
    destruct H as (rc & rp & rd & Hpre).
    split; [| split].
    + intros a rest Heq. exact (run_first rc rp rd h a rest Hpre Heq).
    + intros pre toast post ->. exact (run_present rc rp rd pre post toast Hpre).
    + intros pre post ->. exact (run_reload rc rp rd pre post Hpre).
Qed.

End OnSWUpdate.

Lemma swUpdate_toast_then_reload_witness :
  let detail := {| HbApp.role := Some "cancel" |} in
  let pre := [ HbApp.call_create HbApp.swUpdateToast;
               HbApp.ret_create HbApp.swUpdateToast (HbApp.Fulfilled 7);
               HbApp.call_present 7;
               HbApp.ret_present 7 (HbApp.Fulfilled tt);
               HbApp.call_onWillDismiss 7;
               HbApp.ret_onWillDismiss 7 (HbApp.Fulfilled detail) ] in
  HbApp.history HbApp.onSWUpdate (HbApp.fullRun 7 detail) /\
  HbApp.fullRun 7 detail = pre ++ HbApp.call_reload :: [HbApp.ret_reload] /\
  exists toast' detail',
    pre = [ HbApp.call_create HbApp.swUpdateToast;
            HbApp.ret_create HbApp.swUpdateToast (HbApp.Fulfilled toast');
            HbApp.call_present toast';
            HbApp.ret_present toast' (HbApp.Fulfilled tt);
            HbApp.call_onWillDismiss toast';
            HbApp.ret_onWillDismiss toast' (HbApp.Fulfilled detail') ].
Proof.
  intros detail pre.
  destruct swUpdate_toast_then_reload as (_ & _ & Hfull & Hall).
  pose proof (Hfull 7 detail) as Hrun.
  destruct (Hall _ Hrun) as (_ & _ & Hreload).
  split; [exact Hrun |]. split; [reflexivity |].
  exact (Hreload pre [HbApp.ret_reload] eq_refl).
Defined.

(** * The login page over its life: load, clicks, renders *)

Section Lifecycle.
Context {T : Type} `{I18next T}.

Import AppHome.

(** X1. [changeLang()] writes one style property and no other. *)
Theorem changeLang_style_frame (w : World T) (name : string) :
  name <> "--ion-color-primary" ->
  rootStyle (changeLang w) !! name = rootStyle w !! name.
Proof.
  intros Hne.
  destruct (decide (language (i18n w) = Some "nl")) as [Hnl | Hnl].
  - destruct (changeLang_nl w Hnl) as [_ ->].
    apply lookup_insert_ne. congruence.
  - destruct (changeLang_other w Hnl) as [_ ->].
    apply lookup_insert_ne. congruence.
Qed.

Lemma clicks_S (n : nat) (w : World T) :
  clicks (S n) w = changeLang (clicks n w).
Proof. reflexivity. Qed.


Context `{I18nextT T} `{StringPrototype}.


Context `{!I18nextSync T}.

(** The language after a click is 'en' or 'nl', and the two swap. *)
Lemma clicks_flip (n : nat) (w : World T) (l : string) :
  language (i18n (clicks n w)) = Some l ->
  language (i18n (clicks (S n) w))
  = Some (if decide (l = "nl") then "en" else "nl").
Proof.
  intros Hl. rewrite clicks_S, changeLang_language_cases, Hl.
  destruct (decide (Some l = Some "nl")) as [Heq | Hne];
    destruct (decide (l = "nl")) as [Heq' | Hne']; try reflexivity.
  - injection Heq as Heq. contradiction.
  - subst l. contradiction.
Qed.

(** X2. Clicking alternates: from 'nl' the language is 'nl' after an even
    number of clicks and 'en' after an odd number; from anything else the
    first click gives 'nl' and the alternation starts there. *)
Theorem clicks_language_parity (n : nat) (w : World T) :
  (language (i18n w) = Some "nl" ->
     language (i18n (clicks n w)) = Some (if Nat.even n then "nl" else "en")) /\
  (language (i18n w) <> Some "nl" ->
     language (i18n (clicks (S n) w))
     = Some (if Nat.even n then "nl" else "en")).
Proof.
  split.
  - intros Hnl. induction n as [| n IH]; [exact Hnl |].
    rewrite (clicks_flip n w _ IH), Nat.even_succ, <- Nat.negb_even.
    destruct (Nat.even n); reflexivity.
  - intros Hne. induction n as [| n IH].
    + rewrite clicks_S. change (clicks 0 w) with w.
      rewrite changeLang_language_cases.
      destruct (decide (language (i18n w) = Some "nl")); [contradiction |].
      reflexivity.
    + rewrite (clicks_flip (S n) w _ IH), Nat.even_succ, <- Nat.negb_even.
      destruct (Nat.even n); reflexivity.
Qed.

(** X3. A language other than 'nl' and 'en' (a detected third language, or
    none yet) is left at the first click and never comes back. *)
Theorem clicks_third_language_lost (n : nat) (w : World T) :
  language (i18n w) <> Some "nl" ->
  language (i18n w) <> Some "en" ->
  language (i18n (clicks (S n) w)) <> language (i18n w).
Proof.
  intros Hnl Hen Heq.
  assert (Hcases : language (i18n (clicks (S n) w)) = Some "en" \/
                   language (i18n (clicks (S n) w)) = Some "nl").
  { rewrite clicks_S, changeLang_language_cases.
    destruct (decide (language (i18n (clicks n w)) = Some "nl")); auto. }
  rewrite Heq in Hcases. destruct Hcases; contradiction.
Qed.

(** X5. A click is never without effect: the language after [changeLang()]
    differs from the one before, and once [lang] mirrors the i18next
    language the [@State] field changes too, so the page is rendered
    again. *)
Theorem changeLang_changes_language (w : World T) :
  language (i18n (changeLang w)) <> language (i18n w) /\
  (lang w = language (i18n w) -> lang (changeLang w) <> lang w).
Proof.
  assert (Hdiff : language (i18n (changeLang w)) <> language (i18n w)).
  { rewrite changeLang_language_cases.
    destruct (decide (language (i18n w) = Some "nl")) as [Hnl | Hnl].
    - rewrite Hnl. discriminate.
    - intros Heq. apply Hnl. symmetry. exact Heq. }
  split; [exact Hdiff |].
  intros Hsync. rewrite changeLang_lang, Hsync. exact Hdiff.
Qed.

(** X6. The rendered page has one click handler, the one of the language
    link; running it and rendering again never throws, and the link then
    shows 'en' in upper case if the language was 'nl' and 'nl' in upper
    case otherwise. *)
Theorem render_click_render (w : World T) (v : list (vnode (World T))) :
  render w = Normal v ->
  List.flat_map (handlers "onClick") v = [changeLang] /\
  forall h : World T -> World T,
    In h (List.flat_map (handlers "onClick") v) ->
    render (h w)
    = Normal (view (i18n (changeLang w))
                (toUpperCase
                   (if decide (language (i18n w) = Some "nl")
                    then "en" else "nl"))).
Proof.
  unfold render. intros Hv.
  destruct (lang w) as [l |] eqn:Hl; [| discriminate Hv].
  injection Hv as <-.
  assert (Hhs : List.flat_map (handlers "onClick") (view (i18n w) (toUpperCase l))
                = [changeLang]) by reflexivity.
  split; [exact Hhs |].
  intros h Hin. rewrite Hhs in Hin.
  destruct Hin as [<- | []].
  rewrite changeLang_lang, changeLang_language_cases. reflexivity.
Qed.

End Lifecycle.

Lemma changeLang_style_frame_witness :
  let w := AppHome.style_setProperty "--ion-color-secondary" "blue"
             (AppHome.loaded (Some "nl")) in
  "--ion-color-secondary" <> "--ion-color-primary" /\
  AppHome.rootStyle (AppHome.changeLang w) !! "--ion-color-secondary"
  = Some "blue".
Proof.
  intros w.
  assert (Hne : "--ion-color-secondary" <> "--ion-color-primary")
    by discriminate.
  split; [exact Hne |].
  rewrite (changeLang_style_frame w "--ion-color-secondary" Hne).
  reflexivity.
Defined.

Lemma clicks_language_parity_witness :
  I18nextSync I18nInstance /\
  language (AppHome.i18n (AppHome.loaded (Some "nl"))) = Some "nl" /\
  language (AppHome.i18n (AppHome.clicks 3 (AppHome.loaded (Some "nl"))))
  = Some "en" /\
  language (AppHome.i18n (AppHome.loaded None)) <> Some "nl" /\
  language (AppHome.i18n (AppHome.clicks 3 (AppHome.loaded None)))
  = Some "nl".
Proof.
  assert (Hnl : language (AppHome.i18n (AppHome.loaded (Some "nl"))) = Some "nl")
    by reflexivity.
  assert (Hno : language (AppHome.i18n (AppHome.loaded None)) <> Some "nl")
    by discriminate.
  split; [exact I18nInstance_sync |].
  split; [exact Hnl |].
  split.
  - exact (proj1 (clicks_language_parity (I18nextSync0 := I18nInstance_sync)
                    3 (AppHome.loaded (Some "nl"))) Hnl).
  - split; [exact Hno |].
    exact (proj2 (clicks_language_parity (I18nextSync0 := I18nInstance_sync)
                    2 (AppHome.loaded None)) Hno).
Defined.

Lemma clicks_third_language_lost_witness :
  I18nextSync I18nInstance /\
  language (AppHome.i18n (AppHome.loaded (Some "de"))) <> Some "nl" /\
  language (AppHome.i18n (AppHome.loaded (Some "de"))) <> Some "en" /\
  language (AppHome.i18n (AppHome.clicks 4 (AppHome.loaded (Some "de"))))
  <> Some "de".
Proof.
  assert (Hnl : language (AppHome.i18n (AppHome.loaded (Some "de"))) <> Some "nl")
    by discriminate.
  assert (Hen : language (AppHome.i18n (AppHome.loaded (Some "de"))) <> Some "en")
    by discriminate.
  split; [exact I18nInstance_sync |].
  split; [exact Hnl |]. split; [exact Hen |].
  exact (clicks_third_language_lost (I18nextSync0 := I18nInstance_sync)
           3 (AppHome.loaded (Some "de")) Hnl Hen).
Defined.

Lemma changeLang_changes_language_witness :
  let w := AppHome.loaded (Some "en") in
  I18nextSync I18nInstance /\
  AppHome.lang w = language (AppHome.i18n w) /\
  AppHome.lang (AppHome.changeLang w) <> AppHome.lang w.
Proof.
  intros w.
  assert (Hsync : AppHome.lang w = language (AppHome.i18n w)) by reflexivity.
  split; [exact I18nInstance_sync |]. split; [exact Hsync |].
  exact (proj2 (changeLang_changes_language
                  (I18nextSync0 := I18nInstance_sync) w) Hsync).
Defined.

Lemma render_click_render_witness :
  let w := AppHome.loaded (Some "nl") in
  let page :=
    AppHome.view (AppHome.i18n w) "NL" in
  I18nextSync I18nInstance /\
  AppHome.render (H1 := AsciiStringPrototype) w = Normal page /\
  List.flat_map (handlers "onClick") page = [AppHome.changeLang] /\
  AppHome.render (H1 := AsciiStringPrototype) (AppHome.changeLang w)
  = Normal (AppHome.view (AppHome.i18n (AppHome.changeLang w)) "EN").
Proof.
  intros w page.
  assert (Hpage : AppHome.render (H1 := AsciiStringPrototype) w = Normal page)
    by reflexivity.
  destruct (render_click_render (H1 := AsciiStringPrototype)
              (I18nextSync0 := I18nInstance_sync) w page Hpage)
    as [Hhandlers Hclick].
  split; [exact I18nInstance_sync |].
  split; [exact Hpage |]. split; [exact Hhandlers |].
  apply (Hclick AppHome.changeLang).
  rewrite Hhandlers. left. reflexivity.
Defined.

(** * [HbApp.onSWUpdate] against a browser that answers *)

Section Answers.

Import HbApp.

Variable answer : forall X : Type, browserE X -> option X.

(** X7. The page is reloaded exactly when the toast is created, shown and
    about to be dismissed: if [reload()] is called, the three promises were
    fulfilled; and if they are, [reload()] is called by the fourth step. *)
Theorem reload_iff_all_fulfilled (fuel : nat) :
  (In call_reload (play fuel answer onSWUpdate) ->
   exists toast detail,
     answer _ (ToastCreate swUpdateToast) = Some (Fulfilled toast) /\
     answer _ (ToastPresent toast) = Some (Fulfilled tt) /\
     answer _ (ToastOnWillDismiss toast) = Some (Fulfilled detail)) /\
  (forall toast detail,
     answer _ (ToastCreate swUpdateToast) = Some (Fulfilled toast) ->
     answer _ (ToastPresent toast) = Some (Fulfilled tt) ->
     answer _ (ToastOnWillDismiss toast) = Some (Fulfilled detail) ->
     4 <= fuel ->
     In call_reload (play fuel answer onSWUpdate)).
Proof.
  split.
  - intros Hin.
    destruct fuel as [| fuel]; [destruct Hin |]. cbn in Hin.
    destruct Hin as [Hin | Hin]; [discriminate Hin |].
    destruct (answer _ (ToastCreate swUpdateToast)) as [[toast | r] |] eqn:Hc;
      [| | destruct Hin].
    2: { destruct Hin as [Hin | Hin]; [discriminate Hin |].
         destruct fuel; destruct Hin. }
    destruct Hin as [Hin | Hin]; [discriminate Hin |].
    destruct fuel as [| fuel]; [destruct Hin |]. cbn in Hin.
    destruct Hin as [Hin | Hin]; [discriminate Hin |].
    destruct (answer _ (ToastPresent toast)) as [[[] | r] |] eqn:Hp;
      [| | destruct Hin].
    2: { destruct Hin as [Hin | Hin]; [discriminate Hin |].
         destruct fuel; destruct Hin. }
    destruct Hin as [Hin | Hin]; [discriminate Hin |].
    destruct fuel as [| fuel]; [destruct Hin |]. cbn in Hin.
    destruct Hin as [Hin | Hin]; [discriminate Hin |].
    destruct (answer _ (ToastOnWillDismiss toast)) as [[detail | r] |] eqn:Hd;
      [| | destruct Hin].
    2: { destruct Hin as [Hin | Hin]; [discriminate Hin |].
         destruct fuel; destruct Hin. }
    exists toast, detail. auto.
  - intros toast detail Hc Hp Hd Hfuel.
    destruct fuel as [| [| [| [| fuel]]]]; try lia.
    cbn. rewrite Hc. cbn. rewrite Hp. cbn. rewrite Hd. cbn.
    do 6 right. left. reflexivity.
Qed.

(** X8. How the promise of [onSWUpdate()] settles.  When no call is left
    pending the method ends within five steps.  It is fulfilled only after
    [reload()] has returned; it is rejected with the reason of the promise
    that was rejected, and then [reload()] has not been called. *)
Theorem onSWUpdate_outcome :
  ((forall (X : Type) (e : browserE X), answer X e <> None) ->
   exists res, finish 5 answer onSWUpdate = Some res) /\
  (forall (fuel : nat) (res : Settled unit),
     finish fuel answer onSWUpdate = Some res ->
     (res = Fulfilled tt /\ In ret_reload (play fuel answer onSWUpdate)) \/
     (exists reason,
        res = Rejected reason /\
        ~ In call_reload (play fuel answer onSWUpdate) /\
        (answer _ (ToastCreate swUpdateToast) = Some (Rejected reason) \/
         exists toast,
           answer _ (ToastCreate swUpdateToast) = Some (Fulfilled toast) /\
           (answer _ (ToastPresent toast) = Some (Rejected reason) \/
            answer _ (ToastPresent toast) = Some (Fulfilled tt) /\
            answer _ (ToastOnWillDismiss toast) = Some (Rejected reason))))).
Proof.
  split.
  - intros Hall. cbn.
    destruct (answer _ (ToastCreate swUpdateToast)) as [[toast | r] |] eqn:Hc;
      [| eauto | exfalso; exact (Hall _ _ Hc)].
    cbn.
    destruct (answer _ (ToastPresent toast)) as [[[] | r] |] eqn:Hp;
      [| eauto | exfalso; exact (Hall _ _ Hp)].
    cbn.
    destruct (answer _ (ToastOnWillDismiss toast)) as [[detail | r] |] eqn:Hd;
      [| eauto | exfalso; exact (Hall _ _ Hd)].
    cbn.
    destruct (answer _ LocationReload) as [[] |] eqn:Hr;
      [eauto | exfalso; exact (Hall _ _ Hr)].
  - intros fuel res Hfin.
    destruct fuel as [| fuel]; [discriminate Hfin |]. cbn in Hfin |- *.
    destruct (answer _ (ToastCreate swUpdateToast)) as [[toast | r] |] eqn:Hc;
      [| | discriminate Hfin].
    2: { destruct fuel as [| fuel]; [discriminate Hfin |]. cbn in Hfin |- *.
         injection Hfin as <-. right. exists r.
         split; [reflexivity |]. split; [| auto].
         intros [Hin | [Hin | []]]; discriminate Hin. }
    destruct fuel as [| fuel]; [discriminate Hfin |]. cbn in Hfin |- *.
    destruct (answer _ (ToastPresent toast)) as [[[] | r] |] eqn:Hp;
      [| | discriminate Hfin].
    2: { destruct fuel as [| fuel]; [discriminate Hfin |]. cbn in Hfin |- *.
         injection Hfin as <-. right. exists r.
         split; [reflexivity |]. split; [| eauto].
         intros [Hin | [Hin | [Hin | [Hin | []]]]]; discriminate Hin. }
    destruct fuel as [| fuel]; [discriminate Hfin |]. cbn in Hfin |- *.
    destruct (answer _ (ToastOnWillDismiss toast)) as [[detail | r] |] eqn:Hd;
      [| | discriminate Hfin].
    2: { destruct fuel as [| fuel]; [discriminate Hfin |]. cbn in Hfin |- *.
         injection Hfin as <-. right. exists r.
         split; [reflexivity |]. split; [| eauto 6].
         intros [Hin | [Hin | [Hin | [Hin | [Hin | [Hin | []]]]]]];
           discriminate Hin. }
    destruct fuel as [| fuel]; [discriminate Hfin |]. cbn in Hfin |- *.
    destruct (answer _ LocationReload) as [[] |] eqn:Hr; [| discriminate Hfin].
    destruct fuel as [| fuel]; [discriminate Hfin |]. cbn in Hfin |- *.
    injection Hfin as <-. left. split; [reflexivity |].
    do 7 right. left. reflexivity.
Qed.

End Answers.

Section Positions.

Import HbApp.

(** X9. Each of the four calls is made at most once and at its own place:
    [create] first, [present] third, [onWillDismiss] fifth and [reload]
    seventh in the history, which has at most eight entries. *)
Theorem onSWUpdate_calls_once (h : list item) (i : nat) :
  history onSWUpdate h ->
  (forall opts, h !! i = Some (call_create opts) ->
     i = 0 /\ opts = swUpdateToast) /\
  (forall toast, h !! i = Some (call_present toast) -> i = 2) /\
  (forall toast, h !! i = Some (call_onWillDismiss toast) -> i = 4) /\
  (h !! i = Some call_reload -> i = 6) /\
  length h <= 8.
Proof.
  intros H. apply onSWUpdate_history_run in H.
  destruct H as (rc & rp & rd & Hpre).
  assert (Hlook : forall x, h !! i = Some x -> run rc rp rd !! i = Some x).
  { intros x Hx. exact (prefix_lookup_Some _ _ _ _ Hx Hpre). }
  assert (Hlen : length h <= length (run rc rp rd))
    by (apply prefix_length; exact Hpre).
  split; [| split; [| split; [| split]]].
  - intros opts Hx. apply Hlook in Hx.
    destruct rc as [? | ?], rp as [[] | ?], rd as [? | ?];
      do 9 (try destruct i as [| i]); cbn in Hx;
      first [discriminate Hx | injection Hx as <-; split; reflexivity].
  - intros toast Hx. apply Hlook in Hx.
    destruct rc as [? | ?], rp as [[] | ?], rd as [? | ?];
      do 9 (try destruct i as [| i]); cbn in Hx; congruence.
  - intros toast Hx. apply Hlook in Hx.
    destruct rc as [? | ?], rp as [[] | ?], rd as [? | ?];
      do 9 (try destruct i as [| i]); cbn in Hx; congruence.
  - intros Hx. apply Hlook in Hx.
    destruct rc as [? | ?], rp as [[] | ?], rd as [? | ?];
      do 9 (try destruct i as [| i]); cbn in Hx; congruence.
  - destruct rc as [? | ?], rp as [[] | ?], rd as [? | ?];
      cbn in Hlen; lia.
Qed.

End Positions.

Lemma reload_iff_all_fulfilled_witness :
  let detail := {| HbApp.role := Some "cancel" |} in
  4 <= 4 /\
  In HbApp.call_reload
    (HbApp.play 4 (HbApp.cooperative 7 detail) HbApp.onSWUpdate) /\
  ~ In HbApp.call_reload
      (HbApp.play 9 (HbApp.neverDismissed 7) HbApp.onSWUpdate).
Proof.
  intros detail.
  split; [lia |]. split.
  - exact (proj2 (reload_iff_all_fulfilled (HbApp.cooperative 7 detail) 4)
             7 detail eq_refl eq_refl eq_refl (le_n 4)).
  - intros Hin.
    destruct (proj1 (reload_iff_all_fulfilled (HbApp.neverDismissed 7) 9) Hin)
      as (toast & d & _ & _ & Hd).
    discriminate Hd.
Defined.

Lemma onSWUpdate_outcome_witness :
  HbApp.finish 3 (HbApp.presentRejected 7 "not attached") HbApp.onSWUpdate
  = Some (HbApp.Rejected "not attached") /\
  ~ In HbApp.call_reload
      (HbApp.play 3 (HbApp.presentRejected 7 "not attached") HbApp.onSWUpdate) /\
  exists res,
    HbApp.finish 5 (HbApp.cooperative 7 {| HbApp.role := None |})
      HbApp.onSWUpdate = Some res.
Proof.
  assert (Hfin : HbApp.finish 3 (HbApp.presentRejected 7 "not attached")
                   HbApp.onSWUpdate
                 = Some (HbApp.Rejected "not attached")) by reflexivity.
  split; [exact Hfin |]. split.
  - destruct (proj2 (onSWUpdate_outcome (HbApp.presentRejected 7 "not attached"))
                3 _ Hfin) as [[Hres _] | (reason & _ & Hno & _)].
    + discriminate Hres.
    + exact Hno.
  - apply (proj1 (onSWUpdate_outcome
                    (HbApp.cooperative 7 {| HbApp.role := None |}))).
    intros X e. destruct e; discriminate.
Defined.

Lemma onSWUpdate_calls_once_witness :
  let h := HbApp.fullRun 7 {| HbApp.role := None |} in
  HbApp.history HbApp.onSWUpdate h /\
  h !! 6 = Some HbApp.call_reload /\
  (forall i : nat, h !! i = Some HbApp.call_reload -> i = 6) /\
  length h <= 8.
Proof.
  intros h.
  assert (Hh : HbApp.history HbApp.onSWUpdate h).
  { exact (run_history (HbApp.Fulfilled 7) (HbApp.Fulfilled tt)
             (HbApp.Fulfilled {| HbApp.role := None |})). }
  split; [exact Hh |]. split; [reflexivity |]. split.
  - intros i. exact (proj1 (proj2 (proj2 (proj2 (onSWUpdate_calls_once h i Hh))))).
  - exact (proj2 (proj2 (proj2 (proj2 (onSWUpdate_calls_once h 0 Hh))))).
Defined.
